(** * waver: the simulation set-up and time-stepping loop

    A shallow embedding of [waver/components/simulation.py].

    Numbers.  The code computes with binary64 values (Python [float],
    [numpy.float64]).  They are modelled by [float]: a real number, an
    infinity or NaN.  Arithmetic on finite values is exact real arithmetic
    (no rounding, no overflow, no underflow, zero carries no sign); the
    special values follow IEEE 754 as numpy implements it (a warning, not
    an exception, on division by zero or an invalid operation).

    State.  A [Simulation] object is a record of its five private
    attributes; a method is a function from the object before the call to
    the object after it together with the value returned or the exception
    raised.  An exception leaves the attributes assigned so far in place.

    The modules [_grid], [_time] and [_source] that the file imports are
    not part of the sources at hand.  [Grid] and [Time] are modelled from
    the specification; the [Source] class is a parameter of the
    development. *)

From Stdlib Require Import Reals Lra Lia ZArith.
From stdpp Require Import base list.

Open Scope R_scope.

(** ** Exceptions and results *)

(** The exception classes that occur: Python's own for the code at hand,
    the specification's for the modelled classes. *)
Inductive exn : Set :=
| ValueError
| OverflowError
| TypeError
| IndexError
| NotImplementedError
| ConfigurationError
| RangeError.

Inductive result (A : Type) : Type :=
| Ok (a : A)
| Raise (e : exn).

Arguments Ok {A} a.
Arguments Raise {A} e.

Definition rbind {A B} (r : result A) (k : A -> result B) : result B :=
  match r with
  | Ok a => k a
  | Raise e => Raise e
  end.

Notation "'do' x <- r ; k" := (rbind r (fun x => k))
  (at level 10, x name, r at level 100, k at level 200, only parsing).

Definition raises {A} (r : result A) : Prop := exists e, r = Raise e.

(** ** Floating-point values *)

Inductive float : Type :=
| Fin (x : R)
| Inf (neg : bool)
| NaN.

Definition Rneg (x : R) : bool := if Rlt_dec x 0 then true else false.
Definition Rzero (x : R) : bool := if Req_dec_T x 0 then true else false.
Definition Rpos (x : R) : bool := if Rlt_dec 0 x then true else false.

Definition of_nat (n : nat) : float := Fin (INR n).
Definition of_int (z : Z) : float := Fin (IZR z).

Definition fmul (a b : float) : float :=
  match a, b with
  | NaN, _ | _, NaN => NaN
  | Fin x, Fin y => Fin (x * y)
  | Fin x, Inf s | Inf s, Fin x =>
      if Rzero x then NaN else Inf (xorb s (Rneg x))
  | Inf s, Inf s' => Inf (xorb s s')
  end.

Definition fdiv (a b : float) : float :=
  match a, b with
  | NaN, _ | _, NaN => NaN
  | Fin x, Fin y =>
      if Rzero y then (if Rzero x then NaN else Inf (Rneg x))
      else Fin (x / y)
  | Fin _, Inf _ => Fin 0
  | Inf s, Fin y => Inf (xorb s (Rneg y))
  | Inf _, Inf _ => NaN
  end.

(** [x ** 0.5] for a float [x >= 0]. *)
Definition fsqrt (a : float) : float :=
  match a with
  | Fin x => if Rneg x then NaN else Fin (sqrt x)
  | Inf false => Inf false
  | Inf true => NaN
  | NaN => NaN
  end.

(** [np.log10] *)
Definition np_log10 (a : float) : float :=
  match a with
  | Fin x =>
      if Rpos x then Fin (Rlog 10 x)
      else if Rzero x then Inf true
      else NaN
  | Inf false => Inf false
  | Inf true => NaN
  | NaN => NaN
  end.

(** [np.floor] *)
Definition np_floor (a : float) : float :=
  match a with
  | Fin x => Fin (IZR (Int_part x))
  | _ => a
  end.

(** [np.power(10, e)] *)
Definition np_power10 (e : float) : float :=
  match e with
  | Fin y => Fin (Rpower 10 y)
  | Inf false => Inf false
  | Inf true => Fin 0
  | NaN => NaN
  end.

(** Truncation towards zero. *)
Definition Rtrunc (x : R) : Z :=
  if Rneg x then (- Int_part (- x))%Z else Int_part x.

(** [int(x)] of a float. *)
Definition int (a : float) : result Z :=
  match a with
  | Fin x => Ok (Rtrunc x)
  | Inf _ => Raise OverflowError
  | NaN => Raise ValueError
  end.

(** [np.maximum] of two values: NaN propagates. *)
Definition fmax (a b : float) : float :=
  match a, b with
  | NaN, _ | _, NaN => NaN
  | Inf false, _ | _, Inf false => Inf false
  | Inf true, c | c, Inf true => c
  | Fin x, Fin y => if Rlt_dec x y then Fin y else Fin x
  end.

(** [np.max] of the elements of an array; an empty array has no maximum. *)
Definition np_max_list (l : list float) : result float :=
  match l with
  | [] => Raise ValueError
  | a :: l' => Ok (foldl fmax a l')
  end.

Definition finite (a : float) : Prop := exists x, a = Fin x.

(** ** Arrays *)

(** The values of an array of the grid's shape, in row-major order. *)
Definition field : Type := list float.

Definition nelems (shape : list nat) : nat := foldr Nat.mul 1%nat shape.

(** [np.zeros(shape)] *)
Definition zeros (shape : list nat) : field := replicate (nelems shape) (Fin 0).

(** ** Grid *)

Inductive speed_t : Type :=
| Scalar (v : float)
| Field (shape : list nat) (data : list float).

(** Rounding to the nearest integer, ties to the even one (Python's
    [round]). *)
Definition Rround (x : R) : Z :=
  let f := Int_part x in
  let d := x - IZR f in
  if Rlt_dec d (1 / 2) then f
  else if Rlt_dec (1 / 2) d then (f + 1)%Z
  else if Z.even f then f else (f + 1)%Z.

Definition Rceil (x : R) : Z := (- Int_part (- x))%Z.

Module Grid.

Record t : Type := {
  size : list float;
  spacing : float;
  speed : speed_t;
  shape : list nat
}.

Definition ndim (g : t) : nat := length (size g).

Definition positive (a : float) : result R :=
  match a with
  | Fin x => if Rpos x then Ok x else Raise ConfigurationError
  | _ => Raise ConfigurationError
  end.

Fixpoint axes (size : list float) (h : R) : result (list nat) :=
  match size with
  | [] => Ok []
  | a :: size' =>
      do x <- positive a;
      do rest <- axes size' h;
      Ok (Z.to_nat (Rround (x / h)) :: rest)
  end.

(** Modelled from the spec: the class [Grid] of the module [_grid],
    which is imported but not at hand.  Spec 3 and 4.1: built from
    [(size, spacing, speed)]; [shape[i] = round(size[i] / spacing)];
    [ndim = len(size)]; the spacing and every size are positive; a speed
    field must have the grid's shape, else a ConfigurationError. *)
Definition init (size : list float) (spacing : float) (speed : speed_t)
  : result t :=
  do h <- positive spacing;
  do shp <- axes size h;
  match speed with
  | Scalar _ =>
      Ok {| size := size; spacing := spacing; speed := speed; shape := shp |}
  | Field shp' _ =>
      if decide (shp' = shp)
      then Ok {| size := size; spacing := spacing; speed := speed;
                 shape := shp |}
      else Raise ConfigurationError
  end.

End Grid.

(** [np.max] of a speed: the scalar itself, or the largest value of the
    field. *)
Definition np_max (s : speed_t) : result float :=
  match s with
  | Scalar v => Ok v
  | Field _ data => np_max_list data
  end.

(** ** Time *)

Module Time.

Record t : Type := {
  step : float;
  duration : float;
  nsteps : nat
}.

(** Modelled from the spec: the class [Time] of the module [_time],
    which is imported but not at hand.  Spec 3 and 4.2: built from
    [(step, duration)]; [nsteps = ceil(duration / step)]; a
    ConfigurationError if [step <= 0] or [duration <= 0] (spec 7: or if
    one of them is not finite). *)
Definition init (step duration : float) : result t :=
  match step, duration with
  | Fin s, Fin d =>
      if Rpos s && Rpos d
      then Ok {| step := step; duration := duration;
                 nsteps := Z.to_nat (Rceil (d / s)) |}
      else Raise ConfigurationError
  | _, _ => Raise ConfigurationError
  end.

End Time.

(** ** Source *)

(** Modelled from the spec: the class [Source] of the module [_source],
    which is imported but not at hand, as an interface.  Spec 4.3:
    [Source(location, shape, spacing, frequency, ncycles, phase)] builds a
    source or fails; [value(t)] is a field of the grid's shape, the
    snapshot of the source at time [t].  [value] is a function of the
    source and the time alone. *)
Class SourceAPI (Source : Type) : Type := {
  Source_init :
    list (option float) -> list nat -> float -> float -> option Z -> float ->
    result Source;
  value : Source -> float -> result field
}.

(** Two sources for the examples: a uniform sinusoid, and one whose
    snapshot cannot be computed from a given time on. *)
Record sine_source : Type := { sine_cells : nat; sine_freq : float }.

Definition sine_value (s : sine_source) (t : float) : result field :=
  match fmul (sine_freq s) t with
  | Fin x => Ok (replicate (sine_cells s) (Fin (sin (2 * PI * x))))
  | _ => Ok (replicate (sine_cells s) NaN)
  end.

#[export] Instance sine_api : SourceAPI sine_source := {
  Source_init location shape spacing frequency ncycles phase :=
    Ok {| sine_cells := nelems shape; sine_freq := frequency |};
  value := sine_value
}.

Record faulty_source : Type := { faulty_cells : nat }.

Definition faulty_value (s : faulty_source) (t : float) : result field :=
  match t with
  | Fin x => if Rpos x then Raise ValueError
             else Ok (replicate (faulty_cells s) (Fin 1))
  | _ => Raise ValueError
  end.

#[export] Instance faulty_api : SourceAPI faulty_source := {
  Source_init location shape spacing frequency ncycles phase :=
    Ok {| faulty_cells := nelems shape |};
  value := faulty_value
}.

(** A third source for the examples: one that is built for a positive
    frequency only. *)
Record checked_source : Type := { checked_cells : nat; checked_freq : R }.

Definition checked_init (location : list (option float)) (shape : list nat)
    (spacing frequency : float) (ncycles : option Z) (phase : float)
  : result checked_source :=
  match frequency with
  | Fin f =>
      if Rpos f
      then Ok {| checked_cells := nelems shape; checked_freq := f |}
      else Raise ConfigurationError
  | _ => Raise ConfigurationError
  end.

Definition checked_value (s : checked_source) (t : float) : result field :=
  match t with
  | Fin x =>
      Ok (replicate (checked_cells s) (Fin (sin (2 * PI * (checked_freq s * x)))))
  | _ => Ok (replicate (checked_cells s) NaN)
  end.

#[export] Instance checked_api : SourceAPI checked_source := {
  Source_init := checked_init;
  value := checked_value
}.

(** ** The time step *)

(** Lines 37 to 47 of [__init__] on their own: from the number of
    dimensions, the spacing and the largest speed to the time step. *)
Definition derive_step (ndim : nat) (spacing max_speed : float)
  : result float :=
  let courant_number := fsqrt (of_nat ndim) in
  let max_step := fdiv (fmul courant_number spacing) max_speed in
  let power := np_power10 (np_floor (np_log10 max_step)) in
  do coef <- int (np_floor (fdiv max_step power));
  Ok (fmul (of_int coef) power).

(** Its two halves: the stability bound of lines 37 to 42, and the
    rounding of lines 45 to 47. *)
Definition max_step_of (ndim : nat) (spacing max_speed : float) : float :=
  fdiv (fmul (fsqrt (of_nat ndim)) spacing) max_speed.

Definition round_step (max_step : float) : result float :=
  let power := np_power10 (np_floor (np_log10 max_step)) in
  do coef <- int (np_floor (fdiv max_step power));
  Ok (fmul (of_int coef) power).

(** The specification's words (4.2): the stability bound, and the bound
    rounded down to one leading digit. *)
Definition spec_max_step (ndim : nat) (spacing max_speed : R) : R :=
  sqrt (INR ndim) * spacing / max_speed.

Definition spec_exponent (x : R) : Z := Int_part (Rlog 10 x).

Definition spec_coef (max_step : R) : Z :=
  Int_part (max_step / powerRZ 10 (spec_exponent max_step)).

Definition spec_step (max_step : R) : R :=
  IZR (spec_coef max_step) * powerRZ 10 (spec_exponent max_step).

(** ** Simulation *)

Inductive boundary : Set := PML | periodic.

Section Simulation.

Context {Source : Type} `{SourceAPI Source}.

(** The attributes [_grid], [_time], [_wave], [_source] and [_run] of a
    [Simulation] object.  [_wave] is the array of shape
    [(nsteps,) + grid.shape], a list of [nsteps] fields. *)
Record Simulation : Type := {
  _grid : Grid.t;
  _time : Time.t;
  _wave : list field;
  _source : option Source;
  _run : bool
}.

Definition set_wave (w : list field) (self : Simulation) : Simulation :=
  {| _grid := _grid self; _time := _time self; _wave := w;
     _source := _source self; _run := _run self |}.

Definition set_source (src : option Source) (self : Simulation)
  : Simulation :=
  {| _grid := _grid self; _time := _time self; _wave := _wave self;
     _source := src; _run := _run self |}.

Definition set_run (b : bool) (self : Simulation) : Simulation :=
  {| _grid := _grid self; _time := _time self; _wave := _wave self;
     _source := _source self; _run := b |}.

(** [Simulation.__init__] *)
Definition __init__ (size : list float) (spacing : float) (speed : speed_t)
    (duration : float) : result Simulation :=
  do grid <- Grid.init size spacing speed;
  let courant_number := fsqrt (of_nat (Grid.ndim grid)) in
  do max_speed <- np_max (Grid.speed grid);
  let max_step := fdiv (fmul courant_number (Grid.spacing grid)) max_speed in
  let power := np_power10 (np_floor (np_log10 max_step)) in
  do coef <- int (np_floor (fdiv max_step power));
  let step := fmul (of_int coef) power in
  do time <- Time.init step duration;
  Ok {| _grid := grid;
        _time := time;
        _wave := replicate (Time.nsteps time) (zeros (Grid.shape grid));
        _source := None;
        _run := false |}.

(** A method: the object before the call to the object after it and the
    outcome. *)
Definition method (A : Type) : Type :=
  Simulation -> Simulation * result A.

(** The properties [grid], [time], [source] and [wave]. *)
Definition grid (self : Simulation) : result Grid.t := Ok (_grid self).

Definition time (self : Simulation) : result Time.t := Ok (_time self).

Definition source (self : Simulation) : result Source :=
  match _source self with
  | None => Raise ValueError
  | Some src => Ok src
  end.

Definition wave (self : Simulation) : result (list field) :=
  if _run self then Ok (_wave self) else Raise ValueError.

(** [self._wave[current_step] = v] *)
Definition setitem (current_step : nat) (v : field) : method unit :=
  fun self =>
    if decide (current_step < length (_wave self))%nat
    then (set_wave (<[current_step := v]> (_wave self)) self, Ok tt)
    else (self, Raise IndexError).

(** The body of the loop of [run]. *)
Definition run_body (current_step : nat) : method unit :=
  fun self =>
    let current_time := fmul (Time.step (_time self)) (of_nat current_step) in
    match source self with
    | Raise e => (self, Raise e)
    | Ok src =>
        match value src current_time with
        | Raise e => (self, Raise e)
        | Ok v => setitem current_step v self
        end
    end.

(** [for current_step in steps: body(current_step)]; the progress bar
    that wraps the range only displays. *)
Fixpoint for_each (steps : list nat) (body : nat -> method unit)
  : method unit :=
  fun self =>
    match steps with
    | [] => (self, Ok tt)
    | current_step :: steps' =>
        match body current_step self with
        | (self', Ok _) => for_each steps' body self'
        | (self', Raise e) => (self', Raise e)
        end
    end.

(** [Simulation.run] *)
Definition run : method unit :=
  fun self =>
    match _source self with
    | None => (self, Raise ValueError)
    | Some _ =>
        match for_each (seq 0 (Time.nsteps (_time self))) run_body self with
        | (self', Ok _) => (set_run true self', Ok tt)
        | (self', Raise e) => (self', Raise e)
        end
    end.

(** [Simulation.add_source] *)
Definition add_source (location : list (option float)) (frequency : float)
    (ncycles : option Z) (phase : float) : method unit :=
  fun self =>
    let self1 := set_run false self in
    match Source_init location (Grid.shape (_grid self1))
            (Grid.spacing (_grid self1)) frequency ncycles phase with
    | Raise e => (self1, Raise e)
    | Ok src => (set_source (Some src) self1, Ok tt)
    end.

(** The objects a call can pass. *)
Inductive pyobj : Type :=
| PySimulation (s : Simulation)
| PyBoundaries (b : list (boundary * boundary)).

(** [Simulation.set_boundaries], a function of one positional parameter,
    [boundaries]; its body is [pass].  A call with another number of
    arguments is a TypeError. *)
Definition set_boundaries (args : list pyobj) : result unit :=
  match args with
  | [boundaries] => Ok tt
  | _ => Raise TypeError
  end.

(** A call [self.m(args)] of a function [m] of the class through an
    instance: the instance is passed as the first argument. *)
Definition call_bound (m : list pyobj -> result unit) (args : list pyobj)
  : method unit :=
  fun self => (self, m (PySimulation self :: args)).

(** The states a [Simulation] object can be in: built by [__init__],
    then any calls of [add_source] and [run]. *)
Inductive reachable : Simulation -> Prop :=
| reach_init size spacing speed duration self :
    __init__ size spacing speed duration = Ok self ->
    reachable self
| reach_add_source location frequency ncycles phase self :
    reachable self ->
    reachable (fst (add_source location frequency ncycles phase self))
| reach_run self :
    reachable self ->
    reachable (fst (run self)).

(** What [run] and [add_source] keep: the array has [nsteps] entries, and
    once the simulation has run it has a source and the array holds the
    snapshot of that source at every step. *)
Definition consistent (self : Simulation) : Prop :=
  length (_wave self) = Time.nsteps (_time self) /\
  (_run self = true ->
   exists src,
     _source self = Some src /\
     forall k, (k < Time.nsteps (_time self))%nat ->
       exists v,
         value src (fmul (Time.step (_time self)) (of_nat k)) = Ok v /\
         _wave self !! k = Some v).

(** What the loop of [run] leaves as it is. *)
Definition same_but_wave (self self' : Simulation) : Prop :=
  _grid self' = _grid self /\ _time self' = _time self /\
  _source self' = _source self /\ _run self' = _run self /\
  length (_wave self') = length (_wave self).

End Simulation.

Arguments Simulation Source : clear implicits.
Arguments pyobj Source : clear implicits.

(** ** Examples *)

(** One axis of length 1 with spacing 1 and speed 1, for a duration of 2:
    the simulation that [__init__] builds (see [init_unit]), and the same
    after [add_source] with each of the two example sources. *)
Definition unit_grid : Grid.t :=
  {| Grid.size := [Fin 1]; Grid.spacing := Fin 1;
     Grid.speed := Scalar (Fin 1); Grid.shape := [1%nat] |}.

Definition unit_time : Time.t :=
  {| Time.step := Fin 1; Time.duration := Fin 2; Time.nsteps := 2 |}.

Definition unit_sim {Source : Type} : Simulation Source :=
  {| _grid := unit_grid; _time := unit_time;
     _wave := replicate 2 (zeros [1%nat]); _source := None; _run := false |}.

Definition sine_sim : Simulation sine_source :=
  fst (add_source [None] (Fin 1) None (Fin 0) unit_sim).

Definition faulty_sim : Simulation faulty_source :=
  fst (add_source [None] (Fin 1) None (Fin 0) unit_sim).

(** The first after [run], and the second where its [run] stops: the
    snapshot at step 0 is stored, the one at step 1 raises. *)
Definition sine_done : Simulation sine_source :=
  {| _grid := unit_grid; _time := unit_time;
     _wave := [ [Fin (sin (2 * PI * (1 * (1 * INR 0))))];
                [Fin (sin (2 * PI * (1 * (1 * INR 1))))] ];
     _source := Some {| sine_cells := 1; sine_freq := Fin 1 |};
     _run := true |}.

Definition faulty_stopped : Simulation faulty_source :=
  {| _grid := unit_grid; _time := unit_time;
     _wave := [ [Fin 1]; [Fin 0] ];
     _source := Some {| faulty_cells := 1 |};
     _run := false |}.

(** The unit simulation with the third source, before and after [run]. *)
Definition checked_ready : Simulation checked_source :=
  {| _grid := unit_grid; _time := unit_time;
     _wave := replicate 2 (zeros [1%nat]);
     _source := Some {| checked_cells := 1; checked_freq := 1 |};
     _run := false |}.

Definition checked_done : Simulation checked_source :=
  {| _grid := unit_grid; _time := unit_time;
     _wave := [ [Fin (sin (2 * PI * (1 * (1 * INR 0))))];
                [Fin (sin (2 * PI * (1 * (1 * INR 1))))] ];
     _source := Some {| checked_cells := 1; checked_freq := 1 |};
     _run := true |}.

(** One axis with a speed field of one cell. *)
Definition field_speed : speed_t := Field [1%nat] [Fin 1].

(** * Properties *)

(** ** Real numbers *)

Lemma Rpos_true x : 0 < x -> Rpos x = true.
Proof. intros Hx. unfold Rpos. destruct (Rlt_dec 0 x); [done | lra]. Qed.

Lemma Rpos_false x : x <= 0 -> Rpos x = false.
Proof. intros Hx. unfold Rpos. destruct (Rlt_dec 0 x); [lra | done]. Qed.

Lemma Rpos_inv x : Rpos x = true -> 0 < x.
Proof. unfold Rpos. destruct (Rlt_dec 0 x); [done | discriminate]. Qed.

Lemma Rneg_false x : 0 <= x -> Rneg x = false.
Proof. intros Hx. unfold Rneg. destruct (Rlt_dec x 0); [lra | done]. Qed.

Lemma Rzero_true x : x = 0 -> Rzero x = true.
Proof. intros Hx. unfold Rzero. destruct (Req_dec_T x 0); [done | lra]. Qed.

Lemma Rzero_false x : x <> 0 -> Rzero x = false.
Proof. intros Hx. unfold Rzero. destruct (Req_dec_T x 0); [lra | done]. Qed.

Lemma ln10_pos : 0 < ln 10.
Proof. rewrite <- ln_1. apply ln_increasing; lra. Qed.

Lemma Rpower10_pos y : 0 < Rpower 10 y.
Proof. unfold Rpower. apply exp_pos. Qed.

Lemma Rpower10_succ y : Rpower 10 (y + 1) = 10 * Rpower 10 y.
Proof. rewrite Rpower_plus, Rpower_1 by lra. lra. Qed.

Lemma Rpower10_Rlog x : 0 < x -> Rpower 10 (Rlog 10 x) = x.
Proof. intros Hx. apply Rpower_Rlog; lra. Qed.

Lemma Rlog10_Rpower y : Rlog 10 (Rpower 10 y) = y.
Proof. unfold Rlog. rewrite ln_Rpower. field. pose proof ln10_pos. lra. Qed.

Lemma Rlog10_le x y : 0 < x -> x <= y -> Rlog 10 x <= Rlog 10 y.
Proof.
  intros Hx [Hlt | ->]; [| lra].
  unfold Rlog. apply Rmult_le_compat_r.
  - left. apply Rinv_0_lt_compat, ln10_pos.
  - left. apply ln_increasing; lra.
Qed.

Lemma Rlog10_lt x y : 0 < x -> x < y -> Rlog 10 x < Rlog 10 y.
Proof.
  intros Hx Hlt. unfold Rlog. apply Rmult_lt_compat_r.
  - apply Rinv_0_lt_compat, ln10_pos.
  - apply ln_increasing; lra.
Qed.

Lemma Int_part_floor x : IZR (Int_part x) <= x < IZR (Int_part x) + 1.
Proof. destruct (base_Int_part x). lra. Qed.

Lemma Int_part_unique x z : IZR z <= x < IZR z + 1 -> Int_part x = z.
Proof. intros Hz. symmetry. apply Int_part_spec. lra. Qed.

Lemma Int_part_IZR z : Int_part (IZR z) = z.
Proof. apply Int_part_unique. lra. Qed.

Lemma Rtrunc_IZR z : Rtrunc (IZR z) = z.
Proof.
  unfold Rtrunc, Rneg. destruct (Rlt_dec (IZR z) 0).
  - rewrite <- opp_IZR, Int_part_IZR. lia.
  - apply Int_part_IZR.
Qed.

(** A positive number lies in the decade of the floor of its logarithm,
    and in no other. *)
Lemma decade_bounds x :
  0 < x ->
  Rpower 10 (IZR (Int_part (Rlog 10 x))) <= x
  < 10 * Rpower 10 (IZR (Int_part (Rlog 10 x))).
Proof.
  intros Hx. destruct (Int_part_floor (Rlog 10 x)) as [Hlo Hhi].
  rewrite <- Rpower10_succ. rewrite <- (Rpower10_Rlog x Hx) at 2 3.
  split.
  - apply Rle_Rpower; lra.
  - apply Rpower_lt; lra.
Qed.

Lemma decade_unique x z :
  0 < x -> Rpower 10 (IZR z) <= x < 10 * Rpower 10 (IZR z) ->
  Int_part (Rlog 10 x) = z.
Proof.
  intros Hx [Hlo Hhi]. apply Int_part_unique. split.
  - rewrite <- (Rlog10_Rpower (IZR z)).
    apply Rlog10_le; [apply Rpower10_pos | done].
  - rewrite <- (Rlog10_Rpower (IZR z + 1)). apply Rlog10_lt; [done |].
    rewrite Rpower10_succ. done.
Qed.

Lemma powerRZ10 z : powerRZ 10 z = Rpower 10 (IZR z).
Proof. apply powerRZ_Rpower. lra. Qed.

(** ** The rounded step of the specification *)

Section SpecStep.

Variable x : R.
Hypothesis x_pos : 0 < x.

Let p := powerRZ 10 (spec_exponent x).

Lemma spec_power_pos : 0 < p.
Proof. unfold p. rewrite powerRZ10. apply Rpower10_pos. Qed.

Lemma spec_power_bounds : p <= x < 10 * p.
Proof. unfold p. rewrite powerRZ10. apply decade_bounds, x_pos. Qed.

Lemma spec_quotient_bounds : 1 <= x / p < 10.
Proof.
  pose proof spec_power_pos as Hp. destruct spec_power_bounds as [Hlo Hhi].
  split.
  - apply Rmult_le_reg_r with p; [done |]. field_simplify; lra.
  - apply Rmult_lt_reg_r with p; [done |]. field_simplify; lra.
Qed.

Lemma spec_coef_digit : (1 <= spec_coef x <= 9)%Z.
Proof.
  destruct spec_quotient_bounds as [Hlo Hhi].
  destruct (Int_part_floor (x / p)) as [Hf Hc].
  change (Int_part (x / p)) with (spec_coef x) in Hf, Hc. split.
  - cut (0 < spec_coef x)%Z; [lia |]. apply lt_IZR. lra.
  - cut (spec_coef x < 10)%Z; [lia |]. apply lt_IZR. lra.
Qed.

Lemma spec_step_eq : spec_step x = IZR (spec_coef x) * p.
Proof. reflexivity. Qed.

Lemma spec_step_le : spec_step x <= x.
Proof.
  pose proof spec_power_pos as Hp.
  destruct (Int_part_floor (x / p)) as [Hf _].
  change (Int_part (x / p)) with (spec_coef x) in Hf.
  rewrite spec_step_eq.
  replace x with (x / p * p) at 2 by (field; lra).
  apply Rmult_le_compat_r; lra.
Qed.

Lemma spec_step_decade : p <= spec_step x < 10 * p.
Proof.
  pose proof spec_power_pos as Hp. destruct spec_coef_digit as [Hlo Hhi].
  apply IZR_le in Hlo, Hhi. rewrite spec_step_eq. nra.
Qed.

Lemma spec_step_pos : 0 < spec_step x.
Proof. pose proof spec_power_pos. destruct spec_step_decade. lra. Qed.

Lemma spec_step_exponent : spec_exponent (spec_step x) = spec_exponent x.
Proof.
  unfold spec_exponent at 1. apply decade_unique; [apply spec_step_pos |].
  rewrite <- powerRZ10. apply spec_step_decade.
Qed.

Lemma spec_step_mantissa :
  spec_step x / powerRZ 10 (spec_exponent (spec_step x))
  = IZR (spec_coef x).
Proof.
  rewrite spec_step_exponent. fold p. rewrite spec_step_eq.
  pose proof spec_power_pos. field. lra.
Qed.

End SpecStep.

(** ** The time step of the code *)

Lemma derive_step_eq ndim spacing max_speed :
  derive_step ndim spacing max_speed
  = round_step (max_step_of ndim spacing max_speed).
Proof. reflexivity. Qed.

Lemma round_step_pos x :
  0 < x -> round_step (Fin x) = Ok (Fin (spec_step x)).
Proof.
  intros Hx. unfold round_step, np_log10. rewrite Rpos_true by done.
  cbn [np_floor np_power10 fdiv].
  rewrite Rzero_false by (pose proof (Rpower10_pos (IZR (Int_part (Rlog 10 x)))); lra).
  cbn [np_floor int rbind]. rewrite Rtrunc_IZR. cbn [of_int fmul].
  unfold spec_step, spec_coef, spec_exponent. rewrite powerRZ10. done.
Qed.

Lemma round_step_not_pos a :
  (forall x, a = Fin x -> x <= 0) -> round_step a = Raise ValueError.
Proof.
  intros Ha. destruct a as [x | [] |]; try reflexivity.
  specialize (Ha x eq_refl). unfold round_step, np_log10.
  rewrite Rpos_false by done. destruct (Req_dec_T x 0) as [-> | Hne].
  - rewrite Rzero_true by done. cbn. rewrite Rzero_true by done. done.
  - rewrite Rzero_false by done. reflexivity.
Qed.

Lemma round_step_Ok a st :
  round_step a = Ok st ->
  exists x, a = Fin x /\ 0 < x /\ st = Fin (spec_step x).
Proof.
  intros Hst. destruct a as [x | s |].
  - destruct (Rlt_dec 0 x) as [Hx | Hx].
    + rewrite round_step_pos in Hst by done. exists x. by inversion Hst.
    + rewrite round_step_not_pos in Hst; [done |].
      intros y [= <-]. lra.
  - rewrite round_step_not_pos in Hst; [done | intros y; discriminate].
  - rewrite round_step_not_pos in Hst; [done | intros y; discriminate].
Qed.

Lemma max_step_of_finite ndim h v :
  v <> 0 ->
  max_step_of ndim (Fin h) (Fin v) = Fin (spec_max_step ndim h v).
Proof.
  intros Hv. unfold max_step_of, of_nat, fsqrt.
  rewrite Rneg_false by apply pos_INR. cbn [fmul fdiv].
  rewrite Rzero_false by done. done.
Qed.

Lemma spec_max_step_pos ndim h v :
  (0 < ndim)%nat -> 0 < h -> 0 < v -> 0 < spec_max_step ndim h v.
Proof.
  intros Hn Hh Hv. unfold spec_max_step.
  apply Rdiv_lt_0_compat; [| done]. apply Rmult_lt_0_compat; [| done].
  apply sqrt_lt_R0. by apply lt_0_INR.
Qed.

Lemma spec_max_step_0 h v : spec_max_step 0 h v = 0.
Proof. unfold spec_max_step. simpl. rewrite sqrt_0. lra. Qed.

Lemma derive_step_finite ndim h v :
  (0 < ndim)%nat -> 0 < h -> 0 < v ->
  derive_step ndim (Fin h) (Fin v)
  = Ok (Fin (spec_step (spec_max_step ndim h v))).
Proof.
  intros Hn Hh Hv. rewrite derive_step_eq, max_step_of_finite by lra.
  apply round_step_pos. by apply spec_max_step_pos.
Qed.

Lemma derive_step_Ok ndim h v st :
  0 < h -> 0 < v ->
  derive_step ndim (Fin h) (Fin v) = Ok st ->
  (0 < ndim)%nat /\ st = Fin (spec_step (spec_max_step ndim h v)).
Proof.
  intros Hh Hv Hst. destruct ndim as [| n].
  - rewrite derive_step_eq, max_step_of_finite in Hst by lra.
    rewrite round_step_not_pos in Hst; [done |].
    intros x [= <-]. rewrite spec_max_step_0. lra.
  - rewrite derive_step_finite in Hst by (done || lia).
    split; [lia | by inversion Hst].
Qed.

(** Dividing by zero, by an infinity or by NaN gives no positive finite
    quotient. *)
Lemma fdiv_degenerate a m x :
  m = Fin 0 \/ ~ finite m -> fdiv a m = Fin x -> x <= 0.
Proof.
  intros [-> | Hm] Hq.
  - destruct a as [y | s |]; cbn in Hq; try done.
    rewrite Rzero_true in Hq by done. by destruct (Rzero y).
  - destruct m as [v | s |]; [by destruct Hm; exists v | |].
    + destruct a; cbn in Hq; try done. inversion Hq. lra.
    + by destruct a.
Qed.

Lemma derive_step_degenerate ndim spacing m :
  m = Fin 0 \/ ~ finite m -> derive_step ndim spacing m = Raise ValueError.
Proof.
  intros Hm. rewrite derive_step_eq. apply round_step_not_pos.
  intros x. by apply fdiv_degenerate.
Qed.

(** ** Construction *)

Lemma Grid_positive_Ok a x : Grid.positive a = Ok x -> a = Fin x /\ 0 < x.
Proof.
  destruct a as [y | |]; cbn; try done.
  destruct (Rpos y) eqn:Hy; [| done]. intros [= <-].
  split; [done | by apply Rpos_inv].
Qed.

Lemma Grid_init_Ok size spacing speed g :
  Grid.init size spacing speed = Ok g ->
  Grid.size g = size /\ Grid.spacing g = spacing /\ Grid.speed g = speed /\
  exists h, spacing = Fin h /\ 0 < h.
Proof.
  unfold Grid.init. destruct (Grid.positive spacing) as [h |] eqn:Hh; [| done].
  apply Grid_positive_Ok in Hh. cbn.
  destruct (Grid.axes size h) as [shp |]; [| done]. cbn.
  destruct speed as [v | shp' data].
  - intros [= <-]. cbn. eauto.
  - case_decide; [| done]. intros [= <-]. cbn. eauto.
Qed.

Lemma Time_init_Ok step duration t :
  Time.init step duration = Ok t ->
  Time.step t = step /\ Time.duration t = duration /\
  exists s d, step = Fin s /\ duration = Fin d /\ 0 < s /\ 0 < d /\
              Time.nsteps t = Z.to_nat (Rceil (d / s)).
Proof.
  unfold Time.init. destruct step as [s | |], duration as [d | |]; try done.
  destruct (Rpos s) eqn:Hs, (Rpos d) eqn:Hd; try done. cbn.
  intros [= <-]. cbn. apply Rpos_inv in Hs, Hd.
  repeat split; try done. by exists s, d.
Qed.

Lemma Time_init_pos s d :
  0 < s -> 0 < d ->
  Time.init (Fin s) (Fin d)
  = Ok {| Time.step := Fin s; Time.duration := Fin d;
          Time.nsteps := Z.to_nat (Rceil (d / s)) |}.
Proof. intros Hs Hd. unfold Time.init. by rewrite !Rpos_true. Qed.

Section Construction.

Context {Source : Type}.

Local Abbreviation Sim := (Simulation Source).

(** [__init__] in four steps: the grid, the largest speed, the time step
    and the time. *)
Lemma init_steps size spacing speed duration :
  __init__ (Source := Source) size spacing speed duration
  = (do grid <- Grid.init size spacing speed;
     do max_speed <- np_max (Grid.speed grid);
     do step <- derive_step (Grid.ndim grid) (Grid.spacing grid) max_speed;
     do time <- Time.init step duration;
     Ok {| _grid := grid;
           _time := time;
           _wave := replicate (Time.nsteps time) (zeros (Grid.shape grid));
           _source := None;
           _run := false |}).
Proof.
  unfold __init__, derive_step.
  destruct (Grid.init size spacing speed) as [g |]; [| done]. cbn.
  destruct (np_max (Grid.speed g)) as [m |]; [| done]. cbn.
  by destruct (int _).
Qed.

Lemma init_Ok size spacing speed duration (sim : Sim) :
  __init__ size spacing speed duration = Ok sim ->
  exists g m st t,
    Grid.init size spacing speed = Ok g /\
    np_max speed = Ok m /\
    derive_step (length size) spacing m = Ok st /\
    Time.init st duration = Ok t /\
    sim = {| _grid := g; _time := t;
             _wave := replicate (Time.nsteps t) (zeros (Grid.shape g));
             _source := None; _run := false |}.
Proof.
  rewrite init_steps.
  destruct (Grid.init size spacing speed) as [g |] eqn:Hg; [| done].
  destruct (Grid_init_Ok _ _ _ _ Hg) as (Hsize & Hsp & Hspeed & _).
  cbn. rewrite Hspeed.
  destruct (np_max speed) as [m |] eqn:Hm; [| done]. cbn.
  unfold Grid.ndim. rewrite Hsize, Hsp.
  destruct (derive_step _ _ _) as [st |] eqn:Hst; [| done]. cbn.
  destruct (Time.init st duration) as [t |] eqn:Ht; [| done]. cbn.
  intros [= <-]. by exists g, m, st, t.
Qed.

(** The time step of a simulation built with a positive spacing and a
    positive largest speed. *)
Lemma init_step size h speed v duration (sim : Sim) :
  0 < h -> np_max speed = Ok (Fin v) -> 0 < v ->
  __init__ size (Fin h) speed duration = Ok sim ->
  (0 < length size)%nat /\
  Time.step (_time sim)
  = Fin (spec_step (spec_max_step (length size) h v)).
Proof.
  intros Hh Hm Hv Hsim.
  destruct (init_Ok _ _ _ _ _ Hsim) as (g & m & st & t & _ & Hm' & Hst & Ht & ->).
  rewrite Hm in Hm'. injection Hm' as <-.
  destruct (derive_step_Ok _ _ _ _ Hh Hv Hst) as [Hn ->].
  destruct (Time_init_Ok _ _ _ Ht) as (Hstep & _). done.
Qed.

(** A simulation is built whenever the grid is, the grid has a
    dimension, and the largest speed and the duration are positive. *)
Lemma init_succeeds size h speed v d g :
  Grid.init size (Fin h) speed = Ok g ->
  (0 < length size)%nat ->
  np_max speed = Ok (Fin v) -> 0 < v -> 0 < d ->
  exists sim : Sim, __init__ size (Fin h) speed (Fin d) = Ok sim.
Proof.
  intros Hg Hn Hm Hv Hd. rewrite init_steps, Hg.
  destruct (Grid_init_Ok _ _ _ _ Hg) as (Hsize & Hsp & Hspeed & h' & [= <-] & Hh).
  cbn [rbind]. rewrite Hspeed, Hm. cbn [rbind].
  unfold Grid.ndim. rewrite Hsize, Hsp.
  rewrite derive_step_finite by done. cbn [rbind].
  rewrite Time_init_pos; [by eexists | | done].
  apply spec_step_pos. by apply spec_max_step_pos.
Qed.

End Construction.

Lemma Grid_axes_Raise size h e : Grid.axes size h = Raise e -> e = ConfigurationError.
Proof.
  induction size as [| a size IH]; [done |]. cbn.
  destruct a as [x | |]; cbn; try by intros [= <-].
  destruct (Rpos x); cbn; [| by intros [= <-]].
  destruct (Grid.axes size h); cbn; [done |]. intros [= <-]. by apply IH.
Qed.

Lemma Grid_init_Raise size spacing speed e :
  Grid.init size spacing speed = Raise e -> e = ConfigurationError.
Proof.
  unfold Grid.init. destruct spacing as [h | |]; cbn; try by intros [= <-].
  destruct (Rpos h); cbn; [| by intros [= <-]].
  destruct (Grid.axes size h) as [shp |] eqn:Hshp; cbn.
  - destruct speed; [done |]. case_decide; [done |]. by intros [= <-].
  - intros [= <-]. by apply Grid_axes_Raise in Hshp.
Qed.

(** The example of the specification: one axis, spacing 1, speed 2e6. *)
Lemma spec_step_example : spec_step (spec_max_step 1 1 2000000) = 5 / 10 ^ 7.
Proof.
  assert (Hms : spec_max_step 1 1 2000000 = 5 / 10 ^ 7).
  { unfold spec_max_step. simpl INR. rewrite sqrt_1. lra. }
  assert (Hp : powerRZ 10 (-7) = / 10 ^ 7) by reflexivity.
  assert (He : spec_exponent (5 / 10 ^ 7) = (-7)%Z).
  { apply decade_unique; rewrite <- ?powerRZ10, ?Hp; lra. }
  rewrite Hms. unfold spec_step, spec_coef. rewrite He, Hp.
  replace (5 / 10 ^ 7 / / 10 ^ 7) with (IZR 5) by (field; lra).
  rewrite Int_part_IZR. lra.
Qed.

Lemma Grid_init_example v :
  Grid.init [Fin 1] (Fin 1) (Scalar v)
  = Ok {| Grid.size := [Fin 1]; Grid.spacing := Fin 1;
          Grid.speed := Scalar v;
          Grid.shape := [Z.to_nat (Rround (1 / 1))] |}.
Proof. unfold Grid.init. cbn. rewrite !Rpos_true by lra. reflexivity. Qed.

Section TimeStep.

Context {Source : Type}.

Local Abbreviation Sim := (Simulation Source).





End TimeStep.

Lemma init_example :
  exists sim : Simulation sine_source,
    __init__ [Fin 1] (Fin 1) (Scalar (Fin 2000000)) (Fin 1) = Ok sim.
Proof.
  eapply init_succeeds; [apply Grid_init_example | | reflexivity | |];
    cbn; (lia || lra).
Qed.





(** ** The unit example *)

Lemma Rround_1 : Rround (1 / 1) = 1%Z.
Proof.
  replace (1 / 1) with (IZR 1) by lra. unfold Rround.
  rewrite Int_part_IZR. destruct (Rlt_dec (IZR 1 - IZR 1) (1 / 2)); [done | lra].
Qed.

Lemma spec_step_1 : spec_step (spec_max_step 1 1 1) = 1.
Proof.
  assert (Hms : spec_max_step 1 1 1 = 1).
  { unfold spec_max_step. simpl INR. rewrite sqrt_1. lra. }
  assert (Hp : powerRZ 10 0 = 1) by reflexivity.
  assert (He : spec_exponent 1 = 0%Z).
  { apply decade_unique; rewrite <- ?powerRZ10, ?Hp; lra. }
  rewrite Hms. unfold spec_step, spec_coef. rewrite He, Hp.
  replace (1 / 1) with (IZR 1) by lra. rewrite Int_part_IZR. lra.
Qed.

Lemma Rceil_2 : Rceil (2 / 1) = 2%Z.
Proof.
  unfold Rceil. replace (- (2 / 1)) with (IZR (-2)) by lra.
  by rewrite Int_part_IZR.
Qed.

Lemma init_unit {Source : Type} :
  __init__ (Source := Source) [Fin 1] (Fin 1) (Scalar (Fin 1)) (Fin 2)
  = Ok unit_sim.
Proof.
  rewrite init_steps. unfold Grid.init. cbn [Grid.positive Grid.axes rbind].
  rewrite !Rpos_true by lra. cbn [rbind np_max Grid.speed Grid.ndim Grid.size
                                  Grid.spacing length].
  rewrite derive_step_finite by (lia || lra). rewrite spec_step_1.
  cbn [rbind]. rewrite Time_init_pos by lra. cbn [rbind].
  rewrite Rround_1, Rceil_2. reflexivity.
Qed.

(** ** The loop of [run] *)

Section Running.

Context {Source : Type} `{SourceAPI Source}.

Local Abbreviation Sim := (Simulation Source).

Lemma same_but_wave_refl (self : Sim) : same_but_wave self self.
Proof. by repeat split. Qed.

Lemma same_but_wave_trans (s1 s2 s3 : Sim) :
  same_but_wave s1 s2 -> same_but_wave s2 s3 -> same_but_wave s1 s3.
Proof.
  intros (? & ? & ? & ? & ?) (? & ? & ? & ? & ?).
  repeat split; congruence.
Qed.

Lemma setitem_frame k v (self self' : Sim) r :
  setitem k v self = (self', r) -> same_but_wave self self'.
Proof.
  unfold setitem. case_decide; intros [= <- <-].
  - repeat split; try done. cbn. apply length_insert.
  - apply same_but_wave_refl.
Qed.

Lemma run_body_frame k (self self' : Sim) r :
  run_body k self = (self', r) -> same_but_wave self self'.
Proof.
  unfold run_body. destruct (source self) as [src |].
  - destruct (value src _) as [v |].
    + apply setitem_frame.
    + intros [= <- <-]. apply same_but_wave_refl.
  - intros [= <- <-]. apply same_but_wave_refl.
Qed.

Lemma for_each_frame steps (self self' : Sim) r :
  for_each steps run_body self = (self', r) -> same_but_wave self self'.
Proof.
  revert self. induction steps as [| k steps IH]; intros self; cbn.
  - intros [= <- <-]. apply same_but_wave_refl.
  - destruct (run_body k self) as [self1 [[] | e]] eqn:Hbody.
    + intros Hrest. eapply same_but_wave_trans; [| by apply IH].
      by eapply run_body_frame.
    + intros [= <- <-]. by eapply run_body_frame.
Qed.

(** The loop over the steps [a], ..., [a + n - 1]: the entries below [a]
    stay; when the loop ends, each entry from [a] on is the snapshot of the
    source at its step; when it stops, the snapshot of some step could not
    be computed or stored. *)
Lemma for_each_run_body n : forall a (self self' : Sim) r src,
  _source self = Some src ->
  for_each (seq a n) run_body self = (self', r) ->
  (forall k, (k < a)%nat -> _wave self' !! k = _wave self !! k) /\
  match r with
  | Ok _ =>
      forall k, (a <= k < a + n)%nat ->
        exists v,
          value src (fmul (Time.step (_time self)) (of_nat k)) = Ok v /\
          _wave self' !! k = Some v
  | Raise e =>
      exists k, (a <= k < a + n)%nat /\
        (value src (fmul (Time.step (_time self)) (of_nat k)) = Raise e \/
         (length (_wave self) <= k)%nat)
  end.
Proof.
  induction n as [| n IH]; intros a self self' r src Hsrc; cbn [seq for_each].
  - intros [= <- <-]. split; [done |]. intros k Hk. lia.
  - unfold run_body at 1, source. rewrite Hsrc.
    destruct (value src (fmul (Time.step (_time self)) (of_nat a)))
      as [v | e] eqn:Hv.
    + unfold setitem. case_decide as Hlen.
      * intros Hrest. apply IH with (src := src) in Hrest; [| done].
        cbn [_wave _time set_wave] in Hrest. destruct Hrest as [Hlow Hrest].
        split.
        { intros k Hk. rewrite Hlow by lia.
          apply list_lookup_insert_ne. lia. }
        destruct r as [[] | e].
        { intros k Hk. destruct (decide (k = a)) as [-> | Hne].
          - exists v. split; [done |]. rewrite Hlow by lia.
            by apply list_lookup_insert_eq.
          - apply Hrest. lia. }
        { destruct Hrest as (k & Hk & Hwhy). exists k. split; [lia |].
          by rewrite length_insert in Hwhy. }
      * intros [= <- <-]. split; [done |]. exists a. split; [lia |].
        right. lia.
    + intros [= <- <-]. split; [done |]. exists a. split; [lia |]. by left.
Qed.

(** [run] with a source: the loop, then the flag. *)
Lemma run_with_source (self : Sim) src :
  _source self = Some src ->
  run self
  = match for_each (seq 0 (Time.nsteps (_time self))) run_body self with
    | (self', Ok _) => (set_run true self', Ok tt)
    | (self', Raise e) => (self', Raise e)
    end.
Proof. intros Hsrc. unfold run. by rewrite Hsrc. Qed.

Lemma run_Ok (self self' : Sim) src :
  _source self = Some src ->
  run self = (self', Ok tt) ->
  _grid self' = _grid self /\ _time self' = _time self /\
  _source self' = Some src /\ _run self' = true /\
  length (_wave self') = length (_wave self) /\
  forall k, (k < Time.nsteps (_time self))%nat ->
    exists v,
      value src (fmul (Time.step (_time self)) (of_nat k)) = Ok v /\
      _wave self' !! k = Some v.
Proof.
  intros Hsrc. rewrite (run_with_source _ _ Hsrc).
  destruct (for_each _ _ _) as [self1 [[] | e]] eqn:Hloop; [| done].
  intros [= <-]. cbn.
  destruct (for_each_frame _ _ _ _ Hloop) as (Hg & Ht & Hs & _ & Hl).
  destruct (for_each_run_body _ _ _ _ _ _ Hsrc Hloop) as [_ Hfill].
  repeat split; try done; [congruence |].
  intros k Hk. apply Hfill. lia.
Qed.

Lemma run_Raise (self self' : Sim) e :
  run self = (self', Raise e) ->
  same_but_wave self self' /\
  (_source self = None \/
   exists src k,
     _source self = Some src /\ (k < Time.nsteps (_time self))%nat /\
     (value src (fmul (Time.step (_time self)) (of_nat k)) = Raise e \/
      (length (_wave self) <= k)%nat)).
Proof.
  destruct (_source self) as [src |] eqn:Hsrc.
  - rewrite (run_with_source _ _ Hsrc).
    destruct (for_each _ _ _) as [self1 [[] | e1]] eqn:Hloop; [done |].
    intros [= <- <-]. split; [by eapply for_each_frame |]. right.
    destruct (for_each_run_body _ _ _ _ _ _ Hsrc Hloop) as [_ (k & Hk & Hwhy)].
    exists src, k. split; [done |]. split; [lia | done].
  - unfold run. rewrite Hsrc. intros [= <- <-].
    split; [apply same_but_wave_refl | by left].
Qed.

(** ** The invariant *)

Lemma init_consistent size spacing speed duration (self : Sim) :
  __init__ size spacing speed duration = Ok self -> consistent self.
Proof.
  intros Hinit.
  destruct (init_Ok _ _ _ _ _ Hinit) as (g & m & st & t & _ & _ & _ & _ & ->).
  split; cbn; [apply length_replicate | done].
Qed.

Lemma add_source_run location frequency ncycles phase (self : Sim) :
  _run (fst (add_source location frequency ncycles phase self)) = false /\
  _wave (fst (add_source location frequency ncycles phase self)) = _wave self /\
  _time (fst (add_source location frequency ncycles phase self)) = _time self /\
  _grid (fst (add_source location frequency ncycles phase self)) = _grid self.
Proof. unfold add_source. by destruct (Source_init _ _ _ _ _ _). Qed.

Lemma add_source_consistent location frequency ncycles phase (self : Sim) :
  consistent self ->
  consistent (fst (add_source location frequency ncycles phase self)).
Proof.
  intros [Hlen _].
  destruct (add_source_run location frequency ncycles phase self)
    as (Hrun & Hwave & Htime & _).
  split; [by rewrite Hwave, Htime | by rewrite Hrun].
Qed.

Lemma run_consistent (self : Sim) : consistent self -> consistent (fst (run self)).
Proof.
  intros [Hlen Hran]. destruct (run self) as [self' [[] | e]] eqn:Hrun; cbn.
  - destruct (_source self) as [src |] eqn:Hsrc.
    + destruct (run_Ok _ _ _ Hsrc Hrun) as (_ & Ht & Hs & _ & Hl & Hfill).
      split; [congruence |]. intros _. exists src. split; [done |].
      rewrite Ht. done.
    + unfold run in Hrun. by rewrite Hsrc in Hrun.
  - destruct (run_Raise _ _ _ Hrun) as [(_ & Ht & Hs & Hr & Hl) Hwhy].
    split; [congruence |]. rewrite Hr. intros Htrue.
    destruct (Hran Htrue) as (src & Hsrc & Hall).
    destruct Hwhy as [Hnone | (src' & k & Hsrc' & Hk & [Hv | Hi])].
    + congruence.
    + rewrite Hsrc in Hsrc'. injection Hsrc' as <-.
      destruct (Hall k Hk) as (v & Hv' & _). congruence.
    + lia.
Qed.

Lemma reachable_consistent (self : Sim) : reachable self -> consistent self.
Proof.
  induction 1 as [size spacing speed duration self Hinit | |].
  - by eapply init_consistent.
  - by apply add_source_consistent.
  - by apply run_consistent.
Qed.

End Running.

(** ** The state machine *)

Section StateMachine.

Context {Source : Type} `{SourceAPI Source}.

Local Abbreviation Sim := (Simulation Source).

(** C4: when [run] of a simulation with a source ends without an
    exception, the array holds at every step [k] below [nsteps] the value
    of [source.value(k * time.step)] and nothing else, and the simulation
    has run: [wave] gives the array. *)
Theorem run_fills_wave (self self' : Sim) src :
  _source self = Some src ->
  run self = (self', Ok tt) ->
  _run self' = true /\
  wave self' = Ok (_wave self') /\
  source self' = Ok src /\
  length (_wave self') = length (_wave self) /\
  forall k, (k < Time.nsteps (_time self'))%nat ->
    exists v,
      value src (fmul (Time.step (_time self')) (of_nat k)) = Ok v /\
      _wave self' !! k = Some v.
Proof.
  intros Hsrc Hrun.
  destruct (run_Ok _ _ _ Hsrc Hrun) as (_ & Ht & Hs & Hr & Hl & Hfill).
  unfold wave, source. rewrite Hr, Hs, Ht. done.
Qed.

(** C5: when [run] of a simulation raises an exception, in the loop or
    before it, the simulation has not run afterwards: [wave] raises, so
    the array filled in part is not given out. *)
Theorem failed_run_not_run (self self' : Sim) e :
  reachable self ->
  run self = (self', Raise e) ->
  _run self' = false /\ wave self' = Raise ValueError.
Proof.
  intros Hreach Hrun.
  assert (Hfalse : _run self' = false).
  { pose proof (run_consistent _ (reachable_consistent _ Hreach)) as Hcons.
    rewrite Hrun in Hcons. cbn in Hcons. destruct Hcons as [_ Hran].
    destruct (_run self') eqn:Hr; [| done]. exfalso.
    destruct (Hran eq_refl) as (src & Hsrc & Hall).
    destruct (run_Raise _ _ _ Hrun) as [(_ & Ht & Hs & _ & Hl) Hwhy].
    pose proof (reachable_consistent _ Hreach) as [Hlen _].
    rewrite Hs in Hsrc. rewrite Ht in Hall.
    destruct Hwhy as [Hnone | (src' & k & Hsrc' & Hk & [Hv | Hi])].
    - congruence.
    - rewrite Hsrc in Hsrc'. injection Hsrc' as <-.
      destruct (Hall k Hk) as (v & Hv' & _). congruence.
    - lia. }
  unfold wave. by rewrite Hfalse.
Qed.

(** C6: [wave] raises exactly when the simulation has not run, and then a
    ValueError.  After [add_source], whatever came before and whether it
    built a source or not, the simulation has not run; a [run] that raises
    leaves it so; a [run] that ends sets the flag. *)
Theorem wave_guard (self : Sim) :
  (raises (wave self) <-> _run self = false) /\
  (_run self = false -> wave self = Raise ValueError) /\
  (forall location frequency ncycles phase,
      wave (fst (add_source location frequency ncycles phase self))
      = Raise ValueError) /\
  (forall self' e,
      _run self = false -> run self = (self', Raise e) ->
      wave self' = Raise ValueError) /\
  (forall self', run self = (self', Ok tt) -> wave self' = Ok (_wave self')).
Proof.
  split; [| split; [| split; [| split]]].
  - unfold wave, raises. destruct (_run self); split; try done.
    + by intros [e He].
    + by exists ValueError.
  - unfold wave. by intros ->.
  - intros location frequency ncycles phase. unfold wave.
    by destruct (add_source_run location frequency ncycles phase self) as [-> _].
  - intros self' e Hfalse Hrun.
    destruct (run_Raise _ _ _ Hrun) as [(_ & _ & _ & Hr & _) _].
    unfold wave. by rewrite Hr, Hfalse.
  - intros self' Hrun. destruct (_source self) as [src |] eqn:Hsrc.
    + destruct (run_Ok _ _ _ Hsrc Hrun) as (_ & _ & _ & Hr & _).
      unfold wave. by rewrite Hr.
    + unfold run in Hrun. by rewrite Hsrc in Hrun.
Qed.

(** C7: [run] of a simulation without a source raises a ValueError and
    leaves the simulation, its array and its flag as they were. *)
Theorem run_without_source (self : Sim) :
  _source self = None ->
  run self = (self, Raise ValueError).
Proof. intros Hnone. unfold run. by rewrite Hnone. Qed.


(** C10: [run] assigns to the array and to the flag only: the grid, the
    time and the source are the same after the call, whether it ends or
    raises. *)
Theorem run_frame (self : Sim) :
  _grid (fst (run self)) = _grid self /\
  _time (fst (run self)) = _time self /\
  _source (fst (run self)) = _source self.
Proof.
  destruct (run self) as [self' [[] | e]] eqn:Hrun; cbn.
  - destruct (_source self) as [src |] eqn:Hsrc.
    + by destruct (run_Ok _ _ _ Hsrc Hrun) as (-> & -> & -> & _).
    + unfold run in Hrun. by rewrite Hsrc in Hrun.
  - by destruct (run_Raise _ _ _ Hrun) as [(-> & -> & -> & _) _].
Qed.

End StateMachine.

(** ** The examples, run *)

Lemma run_sine_sim : run sine_sim = (sine_done, Ok tt).
Proof. reflexivity. Qed.

Lemma run_faulty_sim : run faulty_sim = (faulty_stopped, Raise ValueError).
Proof.
  unfold run. cbn. rewrite (Rpos_false (1 * 0)) by lra.
  unfold setitem. cbn. rewrite decide_True by lia. cbn.
  rewrite (Rpos_true (1 * 1)) by lra. reflexivity.
Qed.

Lemma reachable_faulty_sim : reachable faulty_sim.
Proof.
  unfold faulty_sim. apply reach_add_source.
  eapply reach_init. apply init_unit.
Qed.

Lemma run_fills_wave_witness :
  _source sine_sim = Some {| sine_cells := 1; sine_freq := Fin 1 |} /\
  run sine_sim = (sine_done, Ok tt) /\
  _run sine_done = true /\
  wave sine_done = Ok (_wave sine_done) /\
  source sine_done = Ok {| sine_cells := 1; sine_freq := Fin 1 |} /\
  length (_wave sine_done) = length (_wave sine_sim) /\
  forall k, (k < Time.nsteps (_time sine_done))%nat ->
    exists v,
      value {| sine_cells := 1; sine_freq := Fin 1 |}
        (fmul (Time.step (_time sine_done)) (of_nat k)) = Ok v /\
      _wave sine_done !! k = Some v.
Proof.
  split; [reflexivity |]. split; [exact run_sine_sim |].
  exact (run_fills_wave sine_sim sine_done _ eq_refl run_sine_sim).
Defined.

Lemma failed_run_not_run_witness :
  reachable faulty_sim /\
  run faulty_sim = (faulty_stopped, Raise ValueError) /\
  _run faulty_stopped = false /\ wave faulty_stopped = Raise ValueError.
Proof.
  split; [exact reachable_faulty_sim |]. split; [exact run_faulty_sim |].
  exact (failed_run_not_run faulty_sim faulty_stopped ValueError
           reachable_faulty_sim run_faulty_sim).
Defined.

Lemma run_without_source_witness :
  _source (unit_sim (Source := sine_source)) = None /\
  run (unit_sim (Source := sine_source)) = (unit_sim, Raise ValueError).
Proof.
  split; [reflexivity |]. exact (run_without_source unit_sim eq_refl).
Defined.


(** * Further properties *)

(** ** The rounding of the step *)

Lemma Int_part_le x y : x <= y -> (Int_part x <= Int_part y)%Z.
Proof.
  intros Hxy. destruct (Int_part_floor x) as [Hx _].
  destruct (Int_part_floor y) as [_ Hy].
  cut (Int_part x < Int_part y + 1)%Z; [lia |].
  apply lt_IZR. rewrite plus_IZR. lra.
Qed.

Lemma spec_step_half x : 0 < x -> x < 2 * spec_step x.
Proof.
  intros Hx. pose proof (spec_power_pos x) as Hp.
  destruct (spec_coef_digit x Hx) as [Hlo _]. apply IZR_le in Hlo.
  destruct (Int_part_floor (x / powerRZ 10 (spec_exponent x))) as [_ Hc].
  change (Int_part (x / powerRZ 10 (spec_exponent x))) with (spec_coef x) in Hc.
  rewrite spec_step_eq.
  replace x with (x / powerRZ 10 (spec_exponent x) * powerRZ 10 (spec_exponent x))
    at 1 by (field; lra).
  nra.
Qed.

Lemma spec_step_fixed x : 0 < x -> spec_step (spec_step x) = spec_step x.
Proof.
  intros Hx. unfold spec_step at 1, spec_coef at 1.
  rewrite spec_step_mantissa by done. rewrite Int_part_IZR.
  by rewrite spec_step_exponent.
Qed.

Lemma spec_exponent_le x y :
  0 < x -> x <= y -> (spec_exponent x <= spec_exponent y)%Z.
Proof. intros Hx Hxy. apply Int_part_le. by apply Rlog10_le. Qed.

Lemma spec_step_mono x y : 0 < x -> x <= y -> spec_step x <= spec_step y.
Proof.
  intros Hx Hxy. assert (Hy : 0 < y) by lra.
  pose proof (spec_exponent_le x y Hx Hxy) as He.
  destruct (decide (spec_exponent x = spec_exponent y)) as [Heq | Hne].
  - rewrite !spec_step_eq, <- Heq. pose proof (spec_power_pos x) as Hp.
    apply Rmult_le_compat_r; [lra |]. apply IZR_le.
    unfold spec_coef. rewrite <- Heq. apply Int_part_le.
    apply Rmult_le_compat_r; [| done]. left. by apply Rinv_0_lt_compat.
  - destruct (spec_step_decade x Hx) as [_ Hhi].
    destruct (spec_step_decade y Hy) as [Hlo _].
    apply Rle_trans with (powerRZ 10 (spec_exponent y)); [| done].
    apply Rle_trans with (10 * powerRZ 10 (spec_exponent x)); [lra |].
    rewrite !powerRZ10, <- Rpower10_succ, <- plus_IZR.
    apply Rle_Rpower; [lra |]. apply IZR_le. lia.
Qed.

Lemma spec_max_step_anti ndim h v1 v2 :
  0 < h -> 0 < v1 -> v1 <= v2 ->
  spec_max_step ndim h v2 <= spec_max_step ndim h v1.
Proof.
  intros Hh Hv1 Hv. unfold spec_max_step, Rdiv.
  apply Rmult_le_compat_l.
  - apply Rmult_le_pos; [apply sqrt_pos | lra].
  - apply Rinv_le_contravar; lra.
Qed.

(** ** The largest speed *)

Lemma fmax_Fin a b m :
  fmax a b = Fin m ->
  (a = Inf true \/ exists x, a = Fin x /\ x <= m) /\
  (b = Inf true \/ exists x, b = Fin x /\ x <= m) /\
  (exists x, (a = Fin x \/ b = Fin x) /\ x = m).
Proof.
  destruct a as [x | [] |], b as [y | [] |]; cbn; try done.
  - destruct (Rlt_dec x y); intros [= <-];
      (split; [right; eexists; split; [done | lra] |]);
      (split; [right; eexists; split; [done | lra] |]); eauto.
  - intros [= <-]. split; [right; eexists; split; [done | lra] |].
    split; [by left |]. eauto.
  - intros [= <-]. split; [by left |].
    split; [right; eexists; split; [done | lra] |]. eauto.
Qed.

Lemma foldl_fmax_bound l : forall a m,
  foldl fmax a l = Fin m ->
  forall b, b ∈ a :: l -> b = Inf true \/ exists x, b = Fin x /\ x <= m.
Proof.
  induction l as [| c l IH]; intros a m; cbn [foldl].
  - intros -> b Hb. apply list_elem_of_singleton in Hb as ->.
    right. exists m. split; [done | lra].
  - intros Hfold b Hb.
    pose proof (IH _ _ Hfold (fmax a c) (list_elem_of_here _ _)) as Hac.
    destruct Hac as [Hinf | (y & Hy & Hym)].
    + destruct a as [x | [] |], c as [z | [] |]; cbn in Hinf; try done.
      * by destruct (Rlt_dec x z).
      * apply elem_of_cons in Hb as [-> | Hb]; [by left |].
        apply elem_of_cons in Hb as [-> | Hb]; [by left |].
        apply (IH _ _ Hfold). by apply list_elem_of_further.
    + destruct (fmax_Fin _ _ _ Hy) as (Ha & Hc & _).
      apply elem_of_cons in Hb as [-> | Hb].
      { destruct Ha as [-> | (x & -> & Hx)]; [by left |].
        right. exists x. split; [done | lra]. }
      apply elem_of_cons in Hb as [-> | Hb].
      { destruct Hc as [-> | (x & -> & Hx)]; [by left |].
        right. exists x. split; [done | lra]. }
      apply (IH _ _ Hfold). by apply list_elem_of_further.
Qed.

Lemma np_max_list_bound data m x :
  np_max_list data = Ok (Fin m) -> Fin x ∈ data -> x <= m.
Proof.
  destruct data as [| a l]; [done |]. cbn. intros [= Hfold] Hx.
  destruct (foldl_fmax_bound _ _ _ Hfold _ Hx) as [Hinf | (y & [= <-] & Hy)];
    done.
Qed.

(** ** Construction, further *)

Lemma derive_step_Ok_inv ndim h m st :
  0 < h -> derive_step ndim (Fin h) m = Ok st ->
  exists v, m = Fin v /\ 0 < v /\ (0 < ndim)%nat /\
            st = Fin (spec_step (spec_max_step ndim h v)).
Proof.
  intros Hh Hst. rewrite derive_step_eq in Hst.
  destruct (round_step_Ok _ _ Hst) as (x & Hms & Hx & _).
  destruct m as [v | s |].
  - destruct (Req_dec_T v 0) as [-> | Hv].
    + apply fdiv_degenerate in Hms; [lra | by left].
    + rewrite <- derive_step_eq in Hst.
      rewrite max_step_of_finite in Hms by done. injection Hms as <-.
      destruct (Rlt_dec 0 v) as [Hpos | Hneg].
      * exists v. destruct (derive_step_Ok _ _ _ _ Hh Hpos Hst). done.
      * exfalso. unfold spec_max_step, Rdiv in Hx.
        assert (0 <= sqrt (INR ndim) * h)
          by (apply Rmult_le_pos; [apply sqrt_pos | lra]).
        assert (/ v < 0) by (apply Rinv_lt_0_compat; lra). nra.
  - apply fdiv_degenerate in Hms; [lra |]. right. by intros [? ?].
  - apply fdiv_degenerate in Hms; [lra |]. right. by intros [? ?].
Qed.

Lemma Grid_init_field :
  Grid.init [Fin 1] (Fin 1) field_speed
  = Ok {| Grid.size := [Fin 1]; Grid.spacing := Fin 1;
          Grid.speed := field_speed; Grid.shape := [1%nat] |}.
Proof.
  unfold Grid.init. cbn [Grid.positive Grid.axes rbind].
  rewrite !Rpos_true by lra. cbn [rbind field_speed]. rewrite Rround_1.
  by rewrite decide_True.
Qed.

Lemma init_field_example :
  exists sim : Simulation sine_source,
    __init__ [Fin 1] (Fin 1) field_speed (Fin 2) = Ok sim.
Proof.
  eapply init_succeeds; [apply Grid_init_field | | reflexivity | |];
    cbn; (lia || lra).
Qed.

Section ConstructionFurther.

Context {Source : Type} `{SourceAPI Source}.

Local Abbreviation Sim := (Simulation Source).

(** X1: a simulation that [__init__] has built has no source and has not
    run, and its array has [nsteps] entries, each the zero field of the
    grid's shape; so [source], [wave] and [run] all raise a ValueError and
    [run] leaves it as it is. *)
Theorem init_fresh size spacing speed duration (sim : Sim) :
  __init__ size spacing speed duration = Ok sim ->
  _source sim = None /\ _run sim = false /\
  length (_wave sim) = Time.nsteps (_time sim) /\
  (forall k, (k < Time.nsteps (_time sim))%nat ->
     _wave sim !! k = Some (zeros (Grid.shape (_grid sim)))) /\
  source sim = Raise ValueError /\
  wave sim = Raise ValueError /\
  run sim = (sim, Raise ValueError).
Proof.
  intros Hinit.
  destruct (init_Ok _ _ _ _ _ Hinit) as (g & m & st & t & _ & _ & _ & _ & ->).
  cbn. repeat split; try done.
  - apply length_replicate.
  - intros k Hk. by apply lookup_replicate_2.
Qed.

(** X2: with a positive spacing, [__init__] builds a simulation only when
    the grid has at least one axis and the largest speed is finite and
    positive: no axis, a negative speed, a zero speed, an infinite speed
    or NaN all end in an exception. *)
Theorem init_needs_positive_speed size h speed duration (sim : Sim) :
  0 < h ->
  __init__ size (Fin h) speed duration = Ok sim ->
  (0 < length size)%nat /\
  exists v, np_max speed = Ok (Fin v) /\ 0 < v.
Proof.
  intros Hh Hinit.
  destruct (init_Ok _ _ _ _ _ Hinit) as (g & m & st & t & _ & Hm & Hst & _).
  destruct (derive_step_Ok_inv _ _ _ _ Hh Hst) as (v & -> & Hv & Hn & _).
  split; [done |]. by exists v.
Qed.





End ConstructionFurther.


(** ** The loop of [run], further *)

Section RunningFurther.

Context {Source : Type} `{SourceAPI Source}.

Local Abbreviation Sim := (Simulation Source).

(** Where the loop stops: at the first step whose snapshot cannot be
    computed or stored; the entries before it are filled, the others are
    as they were. *)
Lemma for_each_run_body_stop n : forall a (self self' : Sim) e src,
  _source self = Some src ->
  for_each (seq a n) run_body self = (self', Raise e) ->
  exists k,
    (a <= k < a + n)%nat /\
    (value src (fmul (Time.step (_time self)) (of_nat k)) = Raise e \/
     ((length (_wave self) <= k)%nat /\ e = IndexError)) /\
    (forall j, (a <= j < k)%nat ->
       exists v,
         value src (fmul (Time.step (_time self)) (of_nat j)) = Ok v /\
         _wave self' !! j = Some v) /\
    (forall j, (j < a \/ k <= j)%nat -> _wave self' !! j = _wave self !! j).
Proof.
  induction n as [| n IH]; intros a self self' e src Hsrc; cbn [seq for_each];
    [done |].
  unfold run_body at 1, source. rewrite Hsrc.
  destruct (value src (fmul (Time.step (_time self)) (of_nat a)))
    as [v | e0] eqn:Hv.
  - unfold setitem. case_decide as Hlen.
    + intros Hrest. apply IH with (src := src) in Hrest; [| done].
      cbn [_wave _time set_wave] in Hrest.
      destruct Hrest as (k & Hk & Hwhy & Hfilled & Hkept).
      exists k. split; [lia |]. split; [| split].
      * rewrite length_insert in Hwhy. done.
      * intros j Hj. destruct (decide (j = a)) as [-> | Hne].
        { exists v. split; [done |]. rewrite Hkept by lia.
          by apply list_lookup_insert_eq. }
        apply Hfilled. lia.
      * intros j Hj. rewrite Hkept by lia.
        apply list_lookup_insert_ne. lia.
    + intros [= <- <-]. exists a. split; [lia |].
      split; [right; split; [lia | done] |]. split; [intros j Hj; lia | done].
  - intros [= <- <-]. exists a. split; [lia |].
    split; [by left |]. split; [intros j Hj; lia | done].
Qed.

(** [run] ends when the array has its [nsteps] entries and every snapshot
    exists. *)
Lemma run_total (self : Sim) src :
  length (_wave self) = Time.nsteps (_time self) ->
  _source self = Some src ->
  (forall k, (k < Time.nsteps (_time self))%nat ->
     exists v, value src (fmul (Time.step (_time self)) (of_nat k)) = Ok v) ->
  exists self', run self = (self', Ok tt).
Proof.
  intros Hlen Hsrc Hall.
  destruct (run self) as [self' [[] | e]] eqn:Hrun; [by exists self' |].
  destruct (run_Raise _ _ _ Hrun) as [_ [Hnone | (src' & k & Hsrc' & Hk & Hwhy)]].
  - congruence.
  - rewrite Hsrc in Hsrc'. injection Hsrc' as <-.
    destruct (Hall k Hk) as [v Hv]. destruct Hwhy as [Hraise | Hi];
      [congruence | lia].
Qed.

(** [run] on an array that already holds the snapshots only sets the
    flag. *)
Lemma run_again (self : Sim) src :
  length (_wave self) = Time.nsteps (_time self) ->
  _source self = Some src ->
  (forall k, (k < Time.nsteps (_time self))%nat ->
     exists v,
       value src (fmul (Time.step (_time self)) (of_nat k)) = Ok v /\
       _wave self !! k = Some v) ->
  run self = (set_run true self, Ok tt).
Proof.
  intros Hlen Hsrc Hall.
  destruct (run_total self src Hlen Hsrc) as [self' Hrun].
  { intros k Hk. destruct (Hall k Hk) as (v & Hv & _). by exists v. }
  rewrite Hrun. f_equal.
  destruct (run_Ok _ _ _ Hsrc Hrun) as (Hg & Ht & Hs & Hr & Hl & Hfill).
  destruct self as [g t w s r], self' as [g' t' w' s' r'].
  cbn in *. subst. unfold set_run. cbn. f_equal.
  apply list_eq. intros k. destruct (decide (k < Time.nsteps t)%nat) as [Hk | Hk].
  - destruct (Hfill k Hk) as (v & Hv & ->).
    destruct (Hall k Hk) as (v' & Hv' & ->). congruence.
  - rewrite !lookup_ge_None_2; [done | lia | lia].
Qed.

(** X8: on a simulation with a source, [run] ends without an exception
    exactly when the source has a snapshot at every step
    [k * time.step], [k < nsteps]. *)
Theorem run_succeeds_iff (self : Sim) src :
  reachable self ->
  _source self = Some src ->
  (exists self', run self = (self', Ok tt)) <->
  (forall k, (k < Time.nsteps (_time self))%nat ->
     exists v, value src (fmul (Time.step (_time self)) (of_nat k)) = Ok v).
Proof.
  intros Hreach Hsrc. split.
  - intros [self' Hrun] k Hk.
    destruct (run_Ok _ _ _ Hsrc Hrun) as (_ & _ & _ & _ & _ & Hfill).
    destruct (Hfill k Hk) as (v & Hv & _). by exists v.
  - destruct (reachable_consistent _ Hreach) as [Hlen _].
    by apply run_total.
Qed.

(** X9: a [run] that raises stops at the first step whose snapshot
    raises, with that exception: the entries before that step hold their
    snapshots, the entries from that step on are as they were.  The
    assignment to the array never raises. *)
Theorem run_stops_at_first_failure (self self' : Sim) src e :
  reachable self ->
  _source self = Some src ->
  run self = (self', Raise e) ->
  exists k,
    (k < Time.nsteps (_time self))%nat /\
    value src (fmul (Time.step (_time self)) (of_nat k)) = Raise e /\
    (forall j, (j < k)%nat ->
       exists v,
         value src (fmul (Time.step (_time self)) (of_nat j)) = Ok v /\
         _wave self' !! j = Some v) /\
    (forall j, (k <= j)%nat -> _wave self' !! j = _wave self !! j).
Proof.
  intros Hreach Hsrc. rewrite (run_with_source _ _ Hsrc).
  destruct (for_each _ _ _) as [self1 [[] | e1]] eqn:Hloop; [done |].
  intros [= <- <-].
  destruct (reachable_consistent _ Hreach) as [Hlen _].
  destruct (for_each_run_body_stop _ _ _ _ _ _ Hsrc Hloop)
    as (k & Hk & Hwhy & Hfilled & Hkept).
  exists k. split; [lia |]. split; [| split].
  - destruct Hwhy as [Hraise | [Hi _]]; [done | lia].
  - intros j Hj. apply Hfilled. lia.
  - intros j Hj. apply Hkept. lia.
Qed.

(** X10: [run] on a simulation that has run changes nothing: it ends and
    the simulation, array and flag, is the same as before. *)
Theorem rerun_changes_nothing (self : Sim) :
  reachable self -> _run self = true -> run self = (self, Ok tt).
Proof.
  intros Hreach Hr. destruct (reachable_consistent _ Hreach) as [Hlen Hran].
  destruct (Hran Hr) as (src & Hsrc & Hall).
  rewrite (run_again self src Hlen Hsrc Hall). f_equal.
  destruct self. cbn in *. by subst.
Qed.

(** X11: after a [run] that ended, an [add_source] that raises keeps the
    source but clears the flag, and the next [run] brings the simulation
    back to what it was before the [add_source]. *)
Theorem failed_add_source_then_run location frequency ncycles phase
    (self : Sim) e :
  reachable self -> _run self = true ->
  snd (add_source location frequency ncycles phase self) = Raise e ->
  _source (fst (add_source location frequency ncycles phase self))
  = _source self /\
  wave (fst (add_source location frequency ncycles phase self))
  = Raise ValueError /\
  run (fst (add_source location frequency ncycles phase self))
  = (self, Ok tt).
Proof.
  intros Hreach Hr. destruct (reachable_consistent _ Hreach) as [Hlen Hran].
  destruct (Hran Hr) as (src & Hsrc & Hall).
  unfold add_source. destruct (Source_init _ _ _ _ _ _) as [src' | e']; [done |].
  intros _. cbn [fst]. split; [done |]. split; [done |].
  rewrite (run_again (set_run false self) src Hlen Hsrc Hall). f_equal.
  destruct self. cbn in *. by subst.
Qed.

(** X12: whenever [wave] gives the array, the simulation has a source and
    the array holds, at each of its [nsteps] entries, the snapshot of that
    source at that step: whatever calls came before. *)
Theorem wave_holds_snapshots (self : Sim) w :
  reachable self ->
  wave self = Ok w ->
  length w = Time.nsteps (_time self) /\
  exists src,
    source self = Ok src /\
    forall k, (k < Time.nsteps (_time self))%nat ->
      exists v,
        value src (fmul (Time.step (_time self)) (of_nat k)) = Ok v /\
        w !! k = Some v.
Proof.
  intros Hreach. destruct (reachable_consistent _ Hreach) as [Hlen Hran].
  unfold wave. destruct (_run self); [| done]. intros [= <-].
  destruct (Hran eq_refl) as (src & Hsrc & Hall).
  split; [done |]. exists src. unfold source. by rewrite Hsrc.
Qed.


End RunningFurther.

(** ** The examples, further *)

Lemma reachable_sine_sim : reachable sine_sim.
Proof.
  unfold sine_sim. apply reach_add_source.
  eapply reach_init. apply init_unit.
Qed.

Lemma reachable_sine_done : reachable sine_done.
Proof.
  change sine_done with (fst (sine_done, Ok tt : result unit)).
  rewrite <- run_sine_sim. apply reach_run, reachable_sine_sim.
Qed.

Lemma add_source_checked :
  add_source [None] (Fin 1) None (Fin 0) unit_sim = (checked_ready, Ok tt).
Proof.
  unfold add_source. cbn. unfold checked_init.
  rewrite (Rpos_true 1) by lra. reflexivity.
Qed.

Lemma run_checked_ready : run checked_ready = (checked_done, Ok tt).
Proof. reflexivity. Qed.

Lemma reachable_checked_done : reachable checked_done.
Proof.
  change checked_done with (fst (checked_done, Ok tt : result unit)).
  rewrite <- run_checked_ready. apply reach_run.
  change checked_ready with (fst (checked_ready, Ok tt : result unit)).
  rewrite <- add_source_checked. apply reach_add_source.
  eapply reach_init. apply init_unit.
Qed.

Lemma add_source_checked_fails :
  snd (add_source [None] (Fin 0) None (Fin 0) checked_done)
  = Raise ConfigurationError.
Proof.
  unfold add_source. cbn. unfold checked_init.
  rewrite (Rpos_false 0) by lra. reflexivity.
Qed.

Lemma init_fresh_witness :
  __init__ [Fin 1] (Fin 1) (Scalar (Fin 1)) (Fin 2)
  = Ok (unit_sim (Source := sine_source)) /\
  _source (unit_sim (Source := sine_source)) = None /\
  _run (unit_sim (Source := sine_source)) = false /\
  length (_wave (unit_sim (Source := sine_source)))
  = Time.nsteps (_time (unit_sim (Source := sine_source))) /\
  (forall k, (k < Time.nsteps (_time (unit_sim (Source := sine_source))))%nat ->
     _wave (unit_sim (Source := sine_source)) !! k
     = Some (zeros (Grid.shape (_grid (unit_sim (Source := sine_source)))))) /\
  source (unit_sim (Source := sine_source)) = Raise ValueError /\
  wave (unit_sim (Source := sine_source)) = Raise ValueError /\
  run (unit_sim (Source := sine_source)) = (unit_sim, Raise ValueError).
Proof.
  split; [exact init_unit |].
  exact (init_fresh [Fin 1] (Fin 1) (Scalar (Fin 1)) (Fin 2) unit_sim init_unit).
Defined.

Lemma init_needs_positive_speed_witness :
  __init__ [Fin 1] (Fin 1) (Scalar (Fin 1)) (Fin 2)
  = Ok (unit_sim (Source := sine_source)) /\
  (0 < length [Fin 1])%nat /\
  exists v, np_max (Scalar (Fin 1)) = Ok (Fin v) /\ 0 < v.
Proof.
  split; [exact init_unit |].
  apply (init_needs_positive_speed (Source := sine_source)
           [Fin 1] 1 (Scalar (Fin 1)) (Fin 2) unit_sim); [lra | exact init_unit].
Defined.





Lemma run_succeeds_iff_witness :
  reachable sine_sim /\
  ((exists self', run sine_sim = (self', Ok tt)) <->
   (forall k, (k < Time.nsteps (_time sine_sim))%nat ->
      exists v,
        value {| sine_cells := 1; sine_freq := Fin 1 |}
          (fmul (Time.step (_time sine_sim)) (of_nat k)) = Ok v)).
Proof.
  split; [exact reachable_sine_sim |].
  exact (run_succeeds_iff sine_sim _ reachable_sine_sim eq_refl).
Defined.

Lemma run_stops_at_first_failure_witness :
  reachable faulty_sim /\
  run faulty_sim = (faulty_stopped, Raise ValueError) /\
  exists k,
    (k < Time.nsteps (_time faulty_sim))%nat /\
    value {| faulty_cells := 1 |}
      (fmul (Time.step (_time faulty_sim)) (of_nat k)) = Raise ValueError /\
    (forall j, (j < k)%nat ->
       exists v,
         value {| faulty_cells := 1 |}
           (fmul (Time.step (_time faulty_sim)) (of_nat j)) = Ok v /\
         _wave faulty_stopped !! j = Some v) /\
    (forall j, (k <= j)%nat ->
       _wave faulty_stopped !! j = _wave faulty_sim !! j).
Proof.
  split; [exact reachable_faulty_sim |]. split; [exact run_faulty_sim |].
  exact (run_stops_at_first_failure faulty_sim faulty_stopped _ ValueError
           reachable_faulty_sim eq_refl run_faulty_sim).
Defined.

Lemma rerun_changes_nothing_witness :
  reachable sine_done /\ _run sine_done = true /\
  run sine_done = (sine_done, Ok tt).
Proof.
  split; [exact reachable_sine_done |]. split; [reflexivity |].
  exact (rerun_changes_nothing sine_done reachable_sine_done eq_refl).
Defined.

Lemma failed_add_source_then_run_witness :
  reachable checked_done /\ _run checked_done = true /\
  snd (add_source [None] (Fin 0) None (Fin 0) checked_done)
  = Raise ConfigurationError /\
  _source (fst (add_source [None] (Fin 0) None (Fin 0) checked_done))
  = _source checked_done /\
  wave (fst (add_source [None] (Fin 0) None (Fin 0) checked_done))
  = Raise ValueError /\
  run (fst (add_source [None] (Fin 0) None (Fin 0) checked_done))
  = (checked_done, Ok tt).
Proof.
  split; [exact reachable_checked_done |]. split; [reflexivity |].
  split; [exact add_source_checked_fails |].
  exact (failed_add_source_then_run [None] (Fin 0) None (Fin 0) checked_done
           ConfigurationError reachable_checked_done eq_refl
           add_source_checked_fails).
Defined.

Lemma wave_holds_snapshots_witness :
  reachable sine_done /\ wave sine_done = Ok (_wave sine_done) /\
  length (_wave sine_done) = Time.nsteps (_time sine_done) /\
  exists src,
    source sine_done = Ok src /\
    forall k, (k < Time.nsteps (_time sine_done))%nat ->
      exists v,
        value src (fmul (Time.step (_time sine_done)) (of_nat k)) = Ok v /\
        _wave sine_done !! k = Some v.
Proof.
  split; [exact reachable_sine_done |]. split; [reflexivity |].
  exact (wave_holds_snapshots sine_done (_wave sine_done)
           reachable_sine_done eq_refl).
Defined.
